(** * Adafruit MACROPAD hotkeys firmware with the Dragon Drop launcher

    A shallow embedding of [src/code.py]: the macro interpreter of the
    main loop (press edge and release edge of a key), [App.switch], the
    loading of the macro files at start-up and one iteration of the main
    loop, together with the properties the design document states about
    them.

    The firmware talks to the outside world through the [macropad] object
    (keyboard, consumer control, mouse, tone generator, NeoPixels, OLED)
    and through [print] and [time.sleep].  Every such call is recorded, in
    program order, as one [action] of a trace; a Python exception ends the
    computation and keeps the trace emitted so far.  The calls themselves
    belong to the libraries, not to the firmware: each is taken to return
    normally.  The values of a macro file are taken at the types the main
    loop uses them at. *)

From Stdlib Require Import ZArith QArith List Lia Floats.
From stdpp Require Import base list strings pretty.

Local Open Scope string_scope.
Local Open Scope list_scope.
Local Open Scope Z_scope.

(** ** Python values used by the macro files *)

(** An element of a consumer-control list (the [code] of line 147).  Only
    [int] and [float] elements act; anything else is walked over. *)
Inductive code : Type :=
  | CInt (c : Z)
  | CFloat (d : float)
  | COther.

(** The [dict] item of a sequence, restricted to the keys the main loop
    reads.  [None] is an absent key ([k in item] is false); a present key
    holds a value of the type the loop uses it at. *)
Record mouse_dict : Type := MouseDict {
  buttons : option Z;
  x : option Z;
  y : option Z;
  wheel : option Z;
  tone : option Z;
  play : option string
}.

(** One [item] of a key sequence, by the [isinstance] test that accepts
    it.  [IOther] stands for a value of any other type (None, a tuple):
    no branch of either walk fires on it. *)
Inductive item : Type :=
  | IInt (c : Z)
  | IFloat (d : float)
  | IStr (s : string)
  | IList (codes : list code)
  | IDict (m : mouse_dict)
  | IOther.

(** One entry of [app['macros']]: the tuple (color, label, sequence). *)
Record macro : Type := Macro {
  color : Z;
  label : string;
  sequence : list item
}.

(** ** Exceptions *)

(** The class an exception is filed under by an [except] clause: one of
    the seven that line 86 names when it is an instance of it, and
    otherwise its own. *)
Inductive exn_class : Type :=
  | SyntaxError | ImportError | AttributeError | KeyError | NameError
  | IndexError | TypeError
  | ValueError | ZeroDivisionError | OSError | MemoryError | RuntimeError.

Record exn : Type := Exn { exn_cls : exn_class; exn_msg : string }.

(** ** Device actions *)

(** The display groups that can be installed as [display.root_group]. *)
Inductive display_group : Type := macro_menu_group.

Inductive action : Type :=
  (* macropad.keyboard / keyboard_layout *)
  | KeyboardPress (c : Z)
  | KeyboardRelease (c : Z)
  | KeyboardReleaseAll
  | LayoutWrite (s : string)
  (* macropad.consumer_control *)
  | ConsumerPress (c : Z)
  | ConsumerRelease
  (* macropad.mouse *)
  | MousePress (b : Z)
  | MouseRelease (b : Z)
  | MouseReleaseAll
  | MouseMove (dx dy dwheel : Z)
  (* tone and audio *)
  | StartTone (f : Z)
  | StopTone
  | PlayFile (p : string)
  (* time.sleep *)
  | Sleep (d : float)
  (* NeoPixels and OLED *)
  | SetPixel (i : Z) (c : Z)
  | PixelsShow
  | SetText (i : Z) (s : string)
  | SetRectFill (c : Z)
  | SetRotation (r : Z)
  | SetRootGroup (g : display_group)
  | DisplayRefresh
  (* console and game hand-off *)
  | Print (s : string)
  | RunGame.

(** ** The effect monad: a trace of actions and a result or an exception *)

Inductive result (A : Type) : Type :=
  | Ok (a : A)
  | Raise (e : exn).
Arguments Ok {A} a.
Arguments Raise {A} e.

Definition IO (A : Type) : Type := list action * result A.

Definition ret {A} (a : A) : IO A := ([], Ok a).

Definition bind {A B} (m : IO A) (f : A -> IO B) : IO B :=
  match m with
  | (t, Ok a) => let '(t', r) := f a in (t ++ t', r)
  | (t, Raise e) => (t, Raise e)
  end.

Definition emit (a : action) : IO unit := ([a], Ok tt).

Definition raise {A} (e : exn) : IO A := ([], Raise e).

(** [try: body except classes as err: handler err]. *)
Definition try_except {A} (body : IO A) (catches : exn_class -> bool)
    (handler : exn -> IO A) : IO A :=
  match body with
  | (t, Ok a) => (t, Ok a)
  | (t, Raise e) =>
      if catches (exn_cls e)
      then let '(t', r) := handler e in (t ++ t', r)
      else (t, Raise e)
  end.

Declare Scope io_scope.
Delimit Scope io_scope with io.
Notation "v <- m ; k" := (bind m (fun v => k))
  (at level 100, m at next level, right associativity) : io_scope.
Notation "m ;; k" := (bind m (fun _ => k))
  (at level 100, right associativity) : io_scope.
Local Open Scope io_scope.

(** [for v in l: body v]. *)
Fixpoint for_each {A} (l : list A) (body : A -> IO unit) : IO unit :=
  match l with
  | [] => ret tt
  | v :: l' => body v ;; for_each l' body
  end.

Definition trace {A} (m : IO A) : list action := fst m.
Definition outcome {A} (m : IO A) : result A := snd m.

(** ** The [macropad] calls of the firmware, one action each *)

Definition keyboard_press (c : Z) : IO unit := emit (KeyboardPress c).
Definition keyboard_release (c : Z) : IO unit := emit (KeyboardRelease c).
Definition keyboard_release_all : IO unit := emit KeyboardReleaseAll.
Definition keyboard_layout_write (s : string) : IO unit := emit (LayoutWrite s).
Definition consumer_control_press (c : Z) : IO unit := emit (ConsumerPress c).
Definition consumer_control_release : IO unit := emit ConsumerRelease.
Definition mouse_press (b : Z) : IO unit := emit (MousePress b).
Definition mouse_release (b : Z) : IO unit := emit (MouseRelease b).
Definition mouse_release_all : IO unit := emit MouseReleaseAll.
Definition mouse_move (dx dy dwheel : Z) : IO unit := emit (MouseMove dx dy dwheel).
Definition start_tone (f : Z) : IO unit := emit (StartTone f).
Definition stop_tone : IO unit := emit StopTone.
Definition play_file (p : string) : IO unit := emit (PlayFile p).
Definition time_sleep (d : float) : IO unit := emit (Sleep d).
Definition print (s : string) : IO unit := emit (Print s).

(** [d.get(k, default)] on an optional field. *)
Definition get (field : option Z) (default : Z) : Z :=
  match field with Some v => v | None => default end.

(** ** The macro interpreter (main loop, lines 135-176) *)

(** Lines 147-152: the body of [for code in item].  The two tests are
    separate [if]s, as in the source. *)
Definition press_code (c : code) : IO unit :=
  (match c with
   | CInt n => consumer_control_release ;; consumer_control_press n
   | _ => ret tt
   end) ;;
  (match c with
   | CFloat d => time_sleep d
   | _ => ret tt
   end).

(** Lines 154-167: the [dict] branch of the press walk. *)
Definition press_dict (m : mouse_dict) : IO unit :=
  (match buttons m with
   | Some b => if b >=? 0 then mouse_press b else mouse_release (- b)
   | None => ret tt
   end) ;;
  mouse_move (get (x m) 0) (get (y m) 0) (get (wheel m) 0) ;;
  match tone m with
  | Some f =>
      if f >? 0 then stop_tone ;; start_tone f
      else stop_tone
  | None =>
      match play m with
      | Some p => play_file p
      | None => ret tt
      end
  end.

(** Lines 137-167: the body of the press walk, one [isinstance] chain. *)
Definition press_item (it : item) : IO unit :=
  match it with
  | IInt c => if c >=? 0 then keyboard_press c else keyboard_release (- c)
  | IFloat d => time_sleep d
  | IStr s => keyboard_layout_write s
  | IList codes => for_each codes press_code
  | IDict m => press_dict m
  | IOther => ret tt
  end.

(** Lines 170-175: the body of the release walk. *)
Definition release_item (it : item) : IO unit :=
  match it with
  | IInt c => if c >=? 0 then keyboard_release c else ret tt
  | IDict m =>
      match buttons m with
      | Some b => if b >=? 0 then mouse_release b else ret tt
      | None => ret tt
      end
  | _ => ret tt
  end.

(** Lines 136-167: [if pressed: for item in sequence: ...]. *)
Definition press_edge (seq : list item) : IO unit :=
  for_each seq press_item.

(** Lines 169-176: the release walk, then [consumer_control.release()]. *)
Definition release_edge (seq : list item) : IO unit :=
  for_each seq release_item ;;
  consumer_control_release.

(** ** Python primitives used outside the interpreter *)

Definition len {A} (l : list A) : Z := Z.of_nat (length l).

(** [range(n)] for a literal [n]. *)
Definition range (n : nat) : list Z := map Z.of_nat (seq 0 n).

(** [l[i]]: a negative index counts from the end; out of range raises
    [IndexError]. *)
Definition subscript {A} (l : list A) (i : Z) : IO A :=
  let j := if i <? 0 then i + len l else i in
  if j <? 0 then raise (Exn IndexError "index out of range")
  else match l !! Z.to_nat j with
       | Some v => ret v
       | None => raise (Exn IndexError "index out of range")
       end.

(** [a % b] on [int]: the floored remainder, with the sign of [b]. *)
Definition py_mod (a b : Z) : IO Z :=
  if b =? 0 then raise (Exn ZeroDivisionError "division by zero")
  else ret (a `mod` b).

(** [s.endswith(suffix)], [s.startswith(prefix)] and [s[:-n]]. *)
Definition endswith (s suffix : string) : bool :=
  let n := String.length s in
  let k := String.length suffix in
  (k <=? n)%nat && String.eqb (String.substring (n - k) k s) suffix.

Definition startswith (s pre : string) : bool := String.prefix pre s.

Definition drop_last (n : nat) (s : string) : string :=
  String.substring 0 (String.length s - n) s.

(** ** Configurables (lines 20-21) *)

Definition MACRO_FOLDER : string := "/macros".
Definition GAME_KEY : Z := 11.

(** ** class App (lines 24-49) *)

(** What a macro file binds to the name [app].  A dict is given by the
    two keys [App.__init__] reads ([None]: the key is absent); anything
    that cannot be subscripted by a string is [NotSubscriptable]. *)
Inductive appdata : Type :=
  | AppDict (name : option string) (macros : option (list macro))
  | NotSubscriptable.

Module App.

Record t : Type := Build { name : string; macros : list macro }.

(** [d[key]] on a dict whose entry for [key] is [field]. *)
Definition getitem {A} (key : string) (field : option A) : IO A :=
  match field with
  | Some v => ret v
  | None => raise (Exn KeyError key)
  end.

(** Lines 26-28. *)
Definition init (d : appdata) : IO t :=
  match d with
  | AppDict n m =>
      name <- getitem "name" n ;
      macros <- getitem "macros" m ;
      ret (Build name macros)
  | NotSubscriptable => raise (Exn TypeError "object is not subscriptable")
  end.

(** Lines 38-43: the body of [for i in range(12)]. *)
Definition show_key (self : t) (i : Z) : IO unit :=
  if i <? len (macros self) then
    m <- subscript (macros self) i ;
    emit (SetPixel i (color m)) ;;
    emit (SetText i (label m))
  else
    emit (SetPixel i 0) ;;
    emit (SetText i "").

(** Lines 30-49.  [group[13]] is the title label, [rect] the title bar. *)
Definition switch (self : t) : IO unit :=
  emit (SetText 13 (name self)) ;;
  (if negb (String.eqb (name self) "")
   then emit (SetRectFill 0xFFFFFF)
   else emit (SetRectFill 0x000000)) ;;
  for_each (range 12) (show_key self) ;;
  keyboard_release_all ;;
  consumer_control_release ;;
  mouse_release_all ;;
  stop_tone ;;
  emit PixelsShow ;;
  emit DisplayRefresh.

End App.

(** ** Start-up: loading the macro files (lines 77-100) *)

(** A module object as far as line 85 looks at it: its attribute [app],
    if it has one. *)
Record pymodule : Type := PyModule { app : option appdata }.

(** The exception classes of the [except] clause, lines 86-87. *)
Definition load_errors (c : exn_class) : bool :=
  match c with
  | SyntaxError | ImportError | AttributeError | KeyError | NameError
  | IndexError | TypeError => true
  | _ => false
  end.

(** The state of the main loop. *)
Record State : Type := MkState {
  apps : list App.t;
  app_index : Z;
  last_position : option Z
}.

(** The firmware after start-up: spinning in [while True: pass] of lines
    93-94, or in the main loop. *)
Inductive System : Type :=
  | Halted
  | Running (st : State).

Section Startup.

(** [__import__(path)]: what executing the macro file at [path] gives,
    a module object or the exception it raises. *)
Variable import : string -> result pymodule.

Definition import_module (path : string) : IO pymodule := ([], import path).

(** [module.app]. *)
Definition module_app (m : pymodule) : IO appdata :=
  match app m with
  | Some d => ret d
  | None => raise (Exn AttributeError "'module' object has no attribute 'app'")
  end.

(** Lines 82-88: the body of [for filename in files], with the list
    [apps] built so far. *)
Definition load_file (apps : list App.t) (filename : string)
    : IO (list App.t) :=
  if endswith filename ".py" && negb (startswith filename "._") then
    try_except
      (module <- import_module (MACRO_FOLDER +:+ "/" +:+ drop_last 3 filename) ;
       d <- module_app module ;
       a <- App.init d ;
       ret (apps ++ [a]))
      load_errors
      (fun err =>
         print ("ERROR in " +:+ filename +:+ ": " +:+ exn_msg err) ;;
         ret apps)
  else ret apps.

(** Lines 81-88; [files] is the sorted directory listing. *)
Fixpoint load_files (apps : list App.t) (files : list string)
    : IO (list App.t) :=
  match files with
  | [] => ret apps
  | filename :: rest =>
      apps' <- load_file apps filename ;
      load_files apps' rest
  end.

(** Lines 78-100. *)
Definition startup (files : list string) : IO System :=
  apps <- load_files [] files ;
  match apps with
  | [] =>
      emit (SetText 13 "NO MACRO FILES FOUND") ;;
      emit DisplayRefresh ;;
      ret Halted
  | _ =>
      let last_position := None in
      let app_index := 0 in
      let apps := apps ++ [App.Build "Dragon Drop" []] in
      a <- subscript apps app_index ;
      App.switch a ;;
      ret (Running (MkState apps app_index last_position))
  end.

End Startup.

(** ** The main loop (lines 103-176) *)

Record Event : Type := MkEvent { key_number : Z; pressed : bool }.

(** What one iteration reads from outside: the encoder position, the key
    event if there is one, and what [dragondrop_game.run_game] returns
    should this iteration call it. *)
Record Input : Type := MkInput {
  encoder : Z;
  event : option Event;
  game_result : string
}.

(** Line 117: the game takes over until it returns. *)
Definition run_game (returns : string) : IO string := ([RunGame], Ok returns).

(** Lines 105-109. *)
Definition poll_encoder (st : State) (position : Z) : IO State :=
  if decide (Some position <> last_position st) then
    i <- py_mod position (len (apps st)) ;
    a <- subscript (apps st) i ;
    App.switch a ;;
    ret (MkState (apps st) i (Some position))
  else ret st.

(** Lines 114-176: [if event: ...] for an event that is there. *)
Definition handle_event (st : State) (ev : Event) (game : string) : IO State :=
  if app_index st =? len (apps st) - 1 then
    if pressed ev && (key_number ev =? GAME_KEY) then
      print "Starting Dragon Drop game..." ;;
      res <- run_game game ;
      if String.eqb res "game_ended" then
        print "Exiting Dragon Drop game..." ;;
        emit (SetRotation 0) ;;
        emit (SetRootGroup macro_menu_group) ;;
        emit DisplayRefresh ;;
        ret st
      else ret st
    else if pressed ev then
      print ("Key " +:+ pretty (key_number ev) +:+ " pressed. Skipping game.") ;;
      ret st
    else ret st
  else
    a <- subscript (apps st) (app_index st) ;
    if key_number ev >=? len (App.macros a) then ret st
    else
      m <- subscript (App.macros a) (key_number ev) ;
      (if pressed ev then press_edge (sequence m)
       else release_edge (sequence m)) ;;
      ret st.

(** One pass through the body of [while True]. *)
Definition loop_iteration (st : State) (inp : Input) : IO State :=
  st' <- poll_encoder st (encoder inp) ;
  match event inp with
  | Some ev => handle_event st' ev (game_result inp)
  | None => ret st'
  end.


(** The first iterations of [while True], one per input read. *)
Fixpoint main_loop (st : State) (inputs : list Input) : IO State :=
  match inputs with
  | [] => ret st
  | inp :: rest =>
      st' <- loop_iteration st inp ;
      main_loop st' rest
  end.

(** ** The display group (lines 56-70) *)

(** A [Label] with its text, colour, anchored position and anchor point
    (the font, [terminalio.FONT] for all, is left out), and the [Rect] of
    the title bar.  The two coordinates that Python computes with [/] are
    floats there; they are kept here as the exact quotients. *)
Inductive element : Type :=
  | Label (text : string) (color : Z)
      (anchored_x : Q) (anchored_y : Z) (anchor_x anchor_y : Q)
  | Rect (x y width height fill : Z).

Section Display.

(** [macropad.display.width] and [macropad.display.height]. *)
Variables display_width display_height : Z.

(** Lines 59-65: the label of one key. *)
Definition key_label (key_index : Z) : element :=
  let x := key_index `mod` 3 in
  let y := key_index / 3 in
  Label "" 0xFFFFFF
    (((display_width - 1) * x) # 2)
    (display_height - 1 - (3 - y) * 12)
    (x # 2) 1.

(** Line 66. *)
Definition rect : element := Rect 0 0 display_width 13 0xFFFFFF.

(** Lines 68-70: the label of the title. *)
Definition title_label : element :=
  Label "" 0x000000 (inject_Z (display_width / 2)) 0 (1 # 2) 0.

(** Lines 57-70: the twelve [append]s of the loop, then the two after it. *)
Definition group : list element :=
  fold_left (fun g key_index => g ++ [key_label key_index]) (range 12) []
    ++ [rect] ++ [title_label].

End Display.

(** * Vocabulary of the properties *)

(** [Keycode.CONTROL] of adafruit_hid, as the macro files use it. *)
Definition CONTROL : Z := 0xE0.

(** The binding "hold the modifier, let go of it, type a text". *)
Definition tap_then_type (c : Z) (s : string) : list item :=
  [IInt c; IInt (- c); IStr s].

(** A key held for the whole press, next to a text and a tapped key. *)
Definition held_key_sequence : list item := [IStr "a"; IInt 5; IInt (-7)].

(** The actions the release walk itself can emit. *)
Definition is_hid_release (a : action) : Prop :=
  match a with
  | KeyboardRelease _ | MouseRelease _ => True
  | _ => False
  end.

Definition is_consumer_release (a : action) : bool :=
  match a with ConsumerRelease => true | _ => false end.

(** What the design document says a consumer-control list does on a
    press, element by element: an integer is "release whatever is held,
    then press the code", a float is a delay. *)
Definition media_code_actions (c : code) : list action :=
  match c with
  | CInt n => [ConsumerRelease; ConsumerPress n]
  | CFloat d => [Sleep d]
  | COther => []
  end.

(** The delay literal [0.1] of Python: the binary64 value nearest to 1/10. *)
Definition tenth : float := 0x1.999999999999ap-4%float.

(** The tone actions and the play action of the press walk. *)
Definition is_tone (a : action) : bool :=
  match a with StartTone _ | StopTone => true | _ => false end.

Definition is_play (a : action) : bool :=
  match a with PlayFile _ => true | _ => false end.

Definition is_audio (a : action) : bool := is_tone a || is_play a.

(** The assignments to the labels, the title bar and the pixel buffer. *)
Definition is_display_write (a : action) : Prop :=
  match a with
  | SetText _ _ | SetRectFill _ | SetPixel _ _ => True
  | _ => False
  end.

(** The tail of every switch, lines 44-49. *)
Definition release_and_refresh : list action :=
  [KeyboardReleaseAll; ConsumerRelease; MouseReleaseAll; StopTone;
   PixelsShow; DisplayRefresh].

(** Two applications: a macro page and the game entry. *)
Definition two_apps : list App.t :=
  [App.Build "Firefox" [Macro 0x004000 "Back" [IInt 226; IInt 80]];
   App.Build "Dragon Drop" []].

Definition fresh_state : State := MkState two_apps 0 None.

(** Lines 121-123: back to the macro menu once the game has ended. *)
Definition restore_menu : list action :=
  [SetRotation 0; SetRootGroup macro_menu_group; DisplayRefresh].

Section LoadingSpec.

Variable import : string -> result pymodule.

(** The test of line 82. *)
Definition candidate (filename : string) : bool :=
  endswith filename ".py" && negb (startswith filename "._").

(** Lines 84-85 for one file taken alone: the [App] it gives, or the
    exception that importing it or building the [App] raises. *)
Definition attempt (filename : string) : result App.t :=
  outcome (module <- import_module import
                       (MACRO_FOLDER +:+ "/" +:+ drop_last 3 filename) ;
           d <- module_app module ;
           App.init d).

(** The application a file contributes, and the diagnostic it causes. *)
Definition loaded_from (filename : string) : list App.t :=
  if candidate filename then
    match attempt filename with Ok a => [a] | Raise _ => [] end
  else [].

Definition diagnostic_of (filename : string) : list action :=
  if candidate filename then
    match attempt filename with
    | Ok _ => []
    | Raise err => [Print ("ERROR in " +:+ filename +:+ ": " +:+ exn_msg err)]
    end
  else [].


(** The exceptions of the files of a listing are all among those the
    [except] clause names. *)
Definition only_load_errors (files : list string) : Prop :=
  forall filename err,
    In filename files -> candidate filename = true ->
    attempt filename = Raise err -> load_errors (exn_cls err) = true.

End LoadingSpec.


(** A listing with a file whose top-level code raises [ValueError]
    (a malformed number literal handed to [int], say) before a good one. *)
Definition import_bad_number (path : string) : result pymodule :=
  if String.eqb path "/macros/a-numbers"
  then Raise (Exn ValueError "invalid syntax for integer")
  else Ok (PyModule (Some (AppDict (Some "Firefox") (Some [])))).


Definition import_missing_name (path : string) : result pymodule :=
  if String.eqb path "/macros/a-broken"
  then Raise (Exn NameError "name 'Keycode' is not defined")
  else Ok (PyModule (Some (AppDict (Some "Firefox") (Some [])))).

Definition listing_missing_name : list string := ["a-broken.py"; "firefox.py"].

(** The key codes a trace presses, and those it releases, in order. *)
Definition pressed_keys (t : list action) : list Z :=
  flat_map (fun a => match a with KeyboardPress c => [c] | _ => [] end) t.

Definition released_keys (t : list action) : list Z :=
  flat_map (fun a => match a with KeyboardRelease c => [c] | _ => [] end) t.

(** The same for the mouse buttons. *)
Definition pressed_buttons (t : list action) : list Z :=
  flat_map (fun a => match a with MousePress b => [b] | _ => [] end) t.

Definition released_buttons (t : list action) : list Z :=
  flat_map (fun a => match a with MouseRelease b => [b] | _ => [] end) t.

(** What a macro can put out: keyboard, consumer control, mouse, tone,
    audio file, delay. *)
Definition is_macro_output (a : action) : bool :=
  match a with
  | KeyboardPress _ | KeyboardRelease _ | KeyboardReleaseAll | LayoutWrite _
  | ConsumerPress _ | ConsumerRelease
  | MousePress _ | MouseRelease _ | MouseReleaseAll | MouseMove _ _ _
  | StartTone _ | StopTone | PlayFile _ | Sleep _ => true
  | _ => false
  end.

(** What changes the display or the pixels. *)
Definition is_display_action (a : action) : bool :=
  match a with
  | SetPixel _ _ | PixelsShow | SetText _ _ | SetRectFill _
  | SetRotation _ | SetRootGroup _ | DisplayRefresh => true
  | _ => false
  end.

(** The pixel and the label assignments of a trace, in order. *)
Definition pixel_writes (t : list action) : list (Z * Z) :=
  flat_map (fun a => match a with SetPixel i c => [(i, c)] | _ => [] end) t.

Definition text_writes (t : list action) : list (Z * string) :=
  flat_map (fun a => match a with SetText i s => [(i, s)] | _ => [] end) t.

(** The mouse moves of a trace, in order. *)
Definition mouse_moves (t : list action) : list (Z * Z * Z) :=
  flat_map (fun a => match a with
                     | MouseMove dx dy dw => [(dx, dy, dw)]
                     | _ => []
                     end) t.

(** The move a dict item asks for, absent keys counting as 0. *)
Definition move_of (it : item) : list (Z * Z * Z) :=
  match it with
  | IDict m => [(get (x m) 0, get (y m) 0, get (wheel m) 0)]
  | _ => []
  end.

(** The index of the main loop points into the list of applications. *)
Definition index_in_range (st : State) : Prop :=
  0 <= app_index st < len (apps st).

(** The index is the one the last encoder position seen selects. *)
Definition tracks_encoder (st : State) : Prop :=
  match last_position st with
  | Some p => app_index st = p `mod` len (apps st)
  | None => True
  end.

(** Key numbers as the keypad gives them: never negative. *)
Definition key_from_keypad (inp : Input) : Prop :=
  match event inp with
  | Some ev => 0 <= key_number ev
  | None => True
  end.

(** The application the firmware appends for the game (line 99). *)
Definition game_entry : App.t := App.Build "Dragon Drop" [].

(** * Properties *)

(** ** Laws of the effect monad *)

Lemma bind_ok {A B} (m : IO A) (f : A -> IO B) (t : list action) (a : A) :
  m = (t, Ok a) -> bind m f = (t ++ trace (f a), outcome (f a)).
Proof.
  intros ->. unfold bind, trace, outcome. destruct (f a); reflexivity.
Qed.

Lemma bind_raise {A B} (m : IO A) (f : A -> IO B) (t : list action) (e : exn) :
  m = (t, Raise e) -> bind m f = (t, Raise e).
Proof. intros ->. reflexivity. Qed.

Lemma bind_emit {B} (a : action) (k : unit -> IO B) :
  bind (emit a) k = (a :: trace (k tt), outcome (k tt)).
Proof. unfold emit. erewrite bind_ok by reflexivity. reflexivity. Qed.

Lemma io_eta {A} (m : IO A) : m = (trace m, outcome m).
Proof. destruct m; reflexivity. Qed.

(** A loop whose body never raises on the elements it meets runs to the
    end, and its trace is the concatenation of the bodies' traces. *)
Lemma for_each_total {A} (body : A -> IO unit) (l : list A) :
  (forall v, In v l -> outcome (body v) = Ok tt) ->
  for_each l body = (flat_map (fun v => trace (body v)) l, Ok tt).
Proof.
  induction l as [|v l IH]; intros Hok; simpl.
  - reflexivity.
  - rewrite (bind_ok _ _ (trace (body v)) tt).
    + rewrite IH by (intros w Hw; apply Hok; now right). reflexivity.
    + rewrite (io_eta (body v)) at 1. f_equal. apply Hok. now left.
Qed.

(** ** The walks never raise *)

Lemma press_code_ok (c : code) : outcome (press_code c) = Ok tt.
Proof. destruct c; reflexivity. Qed.

Lemma press_dict_ok (m : mouse_dict) : outcome (press_dict m) = Ok tt.
Proof.
  destruct m as [b mx my mw f p]; unfold press_dict; simpl.
  destruct b as [b|]; [destruct (b >=? 0)|];
    (destruct f as [f|]; [destruct (f >? 0)|destruct p]); reflexivity.
Qed.

Lemma press_item_ok (it : item) : outcome (press_item it) = Ok tt.
Proof.
  destruct it as [c|d|s|codes|m|]; simpl; try reflexivity.
  - destruct (c >=? 0); reflexivity.
  - rewrite for_each_total by (intros; apply press_code_ok). reflexivity.
  - apply press_dict_ok.
Qed.

Lemma release_item_ok (it : item) : outcome (release_item it) = Ok tt.
Proof.
  destruct it as [c|d|s|codes|m|]; simpl; try reflexivity.
  - destruct (c >=? 0); reflexivity.
  - destruct (buttons m) as [b|]; [destruct (b >=? 0)|]; reflexivity.
Qed.

Lemma press_edge_trace (seq : list item) :
  press_edge seq = (flat_map (fun it => trace (press_item it)) seq, Ok tt).
Proof. apply for_each_total. intros; apply press_item_ok. Qed.

Lemma press_walk (seq : list item) :
  trace (press_edge seq) = flat_map (fun it => trace (press_item it)) seq.
Proof. now rewrite press_edge_trace. Qed.

Lemma release_edge_trace (seq : list item) :
  release_edge seq =
  (flat_map (fun it => trace (release_item it)) seq ++ [ConsumerRelease], Ok tt).
Proof.
  unfold release_edge.
  erewrite bind_ok by (apply for_each_total; intros; apply release_item_ok).
  reflexivity.
Qed.

(** ** The macro interpreter *)

(** C1, as the code has it: for a key code [c > 0] the press edge of
    [[c; -c; s]] emits exactly press(c), release(c), write(s), and the
    release edge emits release(c) again (the release walk releases every
    non-negative code of the sequence and skips only the negative entry),
    followed by the consumer-control release. *)
Theorem tap_then_type_edges (c : Z) (s : string) :
  0 < c ->
  press_edge (tap_then_type c s)
    = ([KeyboardPress c; KeyboardRelease c; LayoutWrite s], Ok tt) /\
  release_edge (tap_then_type c s)
    = ([KeyboardRelease c; ConsumerRelease], Ok tt).
Proof.
  intros Hc. unfold tap_then_type, press_edge, release_edge. simpl.
  assert (Hpos : (c >=? 0) = true) by (apply Z.geb_le; lia).
  assert (Hneg : (- c >=? 0) = false).
  { destruct (- c >=? 0) eqn:E; [apply Z.geb_le in E; lia | reflexivity]. }
  rewrite Hpos, Hneg, Z.opp_involutive. split; reflexivity.
Qed.

Lemma tap_then_type_edges_CONTROL :
  0 < CONTROL /\
  press_edge (tap_then_type CONTROL "x")
    = ([KeyboardPress CONTROL; KeyboardRelease CONTROL; LayoutWrite "x"], Ok tt) /\
  release_edge (tap_then_type CONTROL "x")
    = ([KeyboardRelease CONTROL; ConsumerRelease], Ok tt).
Proof.
  split; [reflexivity | apply (tap_then_type_edges CONTROL "x"); reflexivity].
Defined.

(** C1 as stated fails: after the press edge of [[CONTROL; -CONTROL; "x"]]
    the release edge does emit a release of CONTROL. *)
Lemma release_edge_releases_tapped_CONTROL :
  ~ (trace (press_edge (tap_then_type CONTROL "x"))
       = [KeyboardPress CONTROL; KeyboardRelease CONTROL; LayoutWrite "x"] /\
     ~ In (KeyboardRelease CONTROL)
          (trace (release_edge (tap_then_type CONTROL "x")))).
Proof. intros [_ Hno]. apply Hno. simpl. left. reflexivity. Qed.

(** C2: a sequence that contains the key code [c >= 0] emits press(c) on
    its press edge and release(c) on its release edge, and both walks run
    to their end. *)
Theorem keycode_press_release_paired (seq : list item) (c : Z) :
  0 <= c ->
  In (IInt c) seq ->
  In (KeyboardPress c) (trace (press_edge seq)) /\
  In (KeyboardRelease c) (trace (release_edge seq)) /\
  outcome (press_edge seq) = Ok tt /\
  outcome (release_edge seq) = Ok tt.
Proof.
  intros Hc Hin.
  assert (Hpos : (c >=? 0) = true) by (apply Z.geb_le; lia).
  rewrite press_edge_trace, release_edge_trace; simpl.
  repeat split.
  - apply in_flat_map. exists (IInt c). split; [assumption|].
    simpl. rewrite Hpos. now left.
  - apply in_or_app. left. apply in_flat_map. exists (IInt c).
    split; [assumption|]. simpl. rewrite Hpos. now left.
Qed.

Lemma keycode_press_release_paired_5 :
  0 <= 5 /\
  In (IInt 5) held_key_sequence /\
  In (KeyboardPress 5) (trace (press_edge held_key_sequence)) /\
  In (KeyboardRelease 5) (trace (release_edge held_key_sequence)) /\
  outcome (press_edge held_key_sequence) = Ok tt /\
  outcome (release_edge held_key_sequence) = Ok tt.
Proof.
  assert (H5 : 0 <= 5) by lia.
  assert (Hin : In (IInt 5) held_key_sequence) by (right; left; reflexivity).
  split; [exact H5|]. split; [exact Hin|].
  exact (keycode_press_release_paired held_key_sequence 5 H5 Hin).
Defined.

Lemma release_item_hid (it : item) :
  Forall is_hid_release (trace (release_item it)).
Proof.
  destruct it as [c|d|s|codes|m|]; simpl; try constructor.
  - destruct (c >=? 0); simpl; repeat constructor.
  - destruct (buttons m) as [b|]; [destruct (b >=? 0)|]; simpl;
      repeat constructor.
Qed.

Lemma release_walk_hid (seq : list item) :
  Forall is_hid_release (flat_map (fun it => trace (release_item it)) seq).
Proof.
  induction seq as [|it seq IH]; simpl.
  - constructor.
  - apply Forall_app. split; [apply release_item_hid | exact IH].
Qed.

Lemma hid_release_not_consumer (l : list action) :
  Forall is_hid_release l -> List.filter is_consumer_release l = [].
Proof.
  induction 1 as [|a l Ha _ IH]; simpl; [reflexivity|].
  destruct a; simpl in *; try contradiction; exact IH.
Qed.

(** C3: whatever the sequence, the release edge runs to its end and its
    trace is the per-item walk, which holds keyboard and mouse releases
    only, followed by one consumer-control release: the only one of the
    trace. *)
Theorem release_edge_ends_with_consumer_release (seq : list item) :
  exists walk : list action,
    release_edge seq = (walk ++ [ConsumerRelease], Ok tt) /\
    Forall is_hid_release walk /\
    length (List.filter is_consumer_release (trace (release_edge seq))) = 1%nat.
Proof.
  exists (flat_map (fun it => trace (release_item it)) seq).
  rewrite release_edge_trace. split; [reflexivity|].
  split; [apply release_walk_hid|].
  simpl. rewrite List.filter_app, hid_release_not_consumer
    by apply release_walk_hid.
  reflexivity.
Qed.

Lemma press_code_trace (c : code) :
  trace (press_code c) = media_code_actions c.
Proof. destruct c; reflexivity. Qed.

Lemma press_list_trace (codes : list code) :
  trace (press_item (IList codes)) = flat_map media_code_actions codes.
Proof.
  simpl. rewrite for_each_total by (intros; apply press_code_ok). simpl.
  induction codes as [|c codes IH]; simpl; [reflexivity|].
  now rewrite press_code_trace, IH.
Qed.

(** C6: wherever a consumer-control list stands in a sequence, the press
    edge emits at its place, for each integer, a consumer-control release
    followed by the press of that code and, for each float, a sleep of
    that duration; the release edge is the same as if the list were not
    there.  In particular [[7, 0.1, 8]] gives release, press 7, sleep 0.1,
    release, press 8. *)
Theorem media_codes_press_only (pre post : list item) (codes : list code) :
  press_edge (pre ++ IList codes :: post)
    = (trace (press_edge pre) ++ flat_map media_code_actions codes
         ++ trace (press_edge post), Ok tt) /\
  release_edge (pre ++ IList codes :: post) = release_edge (pre ++ post) /\
  press_edge [IList [CInt 7; CFloat tenth; CInt 8]]
    = ([ConsumerRelease; ConsumerPress 7; Sleep tenth;
        ConsumerRelease; ConsumerPress 8], Ok tt).
Proof.
  split; [|split].
  - rewrite (press_edge_trace (pre ++ IList codes :: post)), !press_walk.
    rewrite flat_map_app. cbn [flat_map].
    now rewrite press_list_trace.
  - rewrite !release_edge_trace. now rewrite !flat_map_app.
  - reflexivity.
Qed.

(** C7: on the press of a mouse dict, with [t] its trace: when ['tone'] is
    present the audio actions of [t] are the tone's alone (the tone is
    started, after a stop, when it is positive, and stopped otherwise),
    whatever ['play'] holds; a file is played exactly when ['play'] is
    present and ['tone'] absent; and [t] never holds both a tone action
    and a play action. *)
Theorem tone_and_play_exclusive (m : mouse_dict) :
  let t := trace (press_item (IDict m)) in
  (forall f, tone m = Some f ->
     List.filter is_audio t
       = if f >? 0 then [StopTone; StartTone f] else [StopTone]) /\
  (forall p, In (PlayFile p) t <-> tone m = None /\ play m = Some p) /\
  existsb is_tone t && existsb is_play t = false.
Proof.
  destruct m as [b mx my mw f p]. simpl. unfold press_dict. simpl.
  assert (Hb : exists pre,
    trace (match b with
           | Some b0 => if b0 >=? 0 then mouse_press b0 else mouse_release (- b0)
           | None => ret tt
           end) = pre /\ outcome (match b with
           | Some b0 => if b0 >=? 0 then mouse_press b0 else mouse_release (- b0)
           | None => ret tt
           end) = Ok tt /\ List.filter is_audio pre = [] /\
           existsb is_tone pre = false /\ existsb is_play pre = false /\
           forall q, ~ In (PlayFile q) pre).
  { destruct b as [b|]; [destruct (b >=? 0)|]; eexists;
      (repeat split; [reflexivity..|]); simpl; intros q H;
      intuition discriminate. }
  destruct Hb as (pre & Ht & Ho & Hf & Het & Hep & Hin).
  erewrite bind_ok by (rewrite io_eta at 1; rewrite Ht, Ho; reflexivity).
  simpl trace.
  destruct f as [f|].
  - destruct (f >? 0) eqn:Ef; simpl;
      rewrite ?List.filter_app, ?existsb_app, Hf, Het, Hep; simpl.
    + split; [intros ? [= <-]; rewrite Ef; reflexivity|].
      split; [|reflexivity].
      intros q. rewrite in_app_iff. simpl.
      split; [intros [H|H]; [now apply Hin in H | intuition discriminate]
             | intros [[=] _]].
    + split; [intros ? [= <-]; rewrite Ef; reflexivity|].
      split; [|reflexivity].
      intros q. rewrite in_app_iff. simpl.
      split; [intros [H|H]; [now apply Hin in H | intuition discriminate]
             | intros [[=] _]].
  - destruct p as [p|]; simpl;
      rewrite ?List.filter_app, ?existsb_app, ?Hf, ?Het, ?Hep; simpl.
    + split; [intros ? [=]|]. split; [|reflexivity].
      intros q. rewrite in_app_iff. simpl.
      split.
      * intros [H|H]; [now apply Hin in H|].
        destruct H as [H|[H|[]]]; [discriminate|]. injection H as ->. auto.
      * intros [_ [= ->]]. right. right. now left.
    + split; [intros ? [=]|]. split; [|reflexivity].
      intros q. rewrite in_app_iff. simpl.
      split; [intros [H|H]; [now apply Hin in H | intuition discriminate]
             | intros [_ [=]]].
Qed.

Lemma tone_and_play_exclusive_both_keys :
  List.filter is_audio
    (trace (press_item
       (IDict (MouseDict (Some 1) None None None (Some 440) (Some "beep.wav")))))
    = [StopTone; StartTone 440].
Proof.
  exact (proj1 (tone_and_play_exclusive
    (MouseDict (Some 1) None None None (Some 440) (Some "beep.wav")))
    440 eq_refl).
Defined.

(** ** App.switch *)

Lemma subscript_ok {A} (l : list A) (i : Z) :
  0 <= i < len l ->
  exists v, l !! Z.to_nat i = Some v /\ subscript l i = ([], Ok v).
Proof.
  intros [Hlo Hhi]. unfold len in Hhi.
  destruct (lookup_lt_is_Some_2 l (Z.to_nat i)) as [v Hv]; [lia|].
  exists v. split; [exact Hv|].
  unfold subscript.
  destruct (i <? 0) eqn:E; [apply Z.ltb_lt in E; lia|].
  rewrite E, Hv. reflexivity.
Qed.

Lemma show_key_ok (self : App.t) (i : Z) :
  0 <= i ->
  outcome (App.show_key self i) = Ok tt /\
  Forall is_display_write (trace (App.show_key self i)).
Proof.
  intros Hi. unfold App.show_key.
  destruct (i <? len (App.macros self)) eqn:E.
  - apply Z.ltb_lt in E.
    destruct (subscript_ok (App.macros self) i) as (m & _ & ->); [lia|].
    simpl. split; [reflexivity | repeat constructor].
  - simpl. split; [reflexivity | repeat constructor].
Qed.

Lemma range_nonneg (n : nat) (i : Z) : In i (range n) -> 0 <= i.
Proof. unfold range. rewrite in_map_iff. intros (k & <- & _). lia. Qed.

Lemma show_keys_display_writes (self : App.t) (l : list Z) :
  (forall i, In i l -> 0 <= i) ->
  Forall is_display_write (flat_map (fun i => trace (App.show_key self i)) l).
Proof.
  induction l as [|i l IH]; intros Hl; simpl; [constructor|].
  apply Forall_app. split.
  - apply show_key_ok, Hl. now left.
  - apply IH. intros j Hj. apply Hl. now right.
Qed.

Lemma show_keys_run (self : App.t) :
  for_each (range 12) (App.show_key self)
    = (flat_map (fun i => trace (App.show_key self i)) (range 12), Ok tt).
Proof.
  apply for_each_total. intros i Hi.
  apply show_key_ok. exact (range_nonneg _ _ Hi).
Qed.

Lemma switch_ok (self : App.t) : outcome (App.switch self) = Ok tt.
Proof.
  unfold App.switch. rewrite show_keys_run.
  destruct (negb (String.eqb (App.name self) "")); reflexivity.
Qed.

(** C10: whatever the application, [App.switch] runs to its end, and its
    trace is a run of label, title-bar and pixel assignments followed by
    release of all keys, release of the consumer-control code, release of
    all mouse buttons and stop of the tone, in that order, and only then
    the show of the pixels and the one refresh of the display. *)
Theorem switch_releases_before_refresh (self : App.t) :
  exists writes : list action,
    App.switch self = (writes ++ release_and_refresh, Ok tt) /\
    Forall is_display_write writes.
Proof.
  unfold App.switch. rewrite show_keys_run.
  pose proof (show_keys_display_writes self (range 12) (range_nonneg 12)) as Hw.
  set (keys := flat_map (fun i => trace (App.show_key self i)) (range 12)) in *.
  destruct (negb (String.eqb (App.name self) "")).
  - exists (SetText 13 (App.name self) :: SetRectFill 0xFFFFFF :: keys).
    split; [reflexivity | repeat constructor; exact Hw].
  - exists (SetText 13 (App.name self) :: SetRectFill 0x000000 :: keys).
    split; [reflexivity | repeat constructor; exact Hw].
Qed.

(** ** The main loop *)

(** C4: with [N > 0] applications, an encoder position [p] that differs
    from the last one seen, negative or not, selects the application of
    index [p mod N], which lies in [0, N): the switch to that application
    is performed and the new state records the index and the position. *)
Theorem encoder_selects_position_mod_count (st : State) (p : Z) :
  0 < len (apps st) ->
  Some p <> last_position st ->
  exists a : App.t,
    apps st !! Z.to_nat (p `mod` len (apps st)) = Some a /\
    poll_encoder st p
      = (trace (App.switch a),
         Ok (MkState (apps st) (p `mod` len (apps st)) (Some p))) /\
    0 <= p `mod` len (apps st) < len (apps st).
Proof.
  intros HN Hp.
  pose proof (Z.mod_pos_bound p (len (apps st)) HN) as Hb.
  destruct (subscript_ok (apps st) _ Hb) as (a & Ha & Hsub).
  exists a. split; [exact Ha|]. split; [|exact Hb].
  unfold poll_encoder, py_mod.
  destruct (decide (Some p <> last_position st)) as [_|Hn]; [|contradiction].
  destruct (len (apps st) =? 0) eqn:E; [apply Z.eqb_eq in E; lia|].
  simpl. rewrite Hsub. simpl.
  rewrite (io_eta (App.switch a)), switch_ok. simpl.
  now rewrite app_nil_r.
Qed.

Lemma encoder_selects_position_mod_count_back_one :
  exists a : App.t,
    two_apps !! 1%nat = Some a /\
    poll_encoder fresh_state (-1)
      = (trace (App.switch a), Ok (MkState two_apps 1 (Some (-1)))) /\
    0 <= 1 < 2.
Proof.
  apply (encoder_selects_position_mod_count fresh_state (-1)).
  - reflexivity.
  - discriminate.
Defined.

(** X4: inside a macro page, an event for a bound key runs the press walk
    or the release walk of that key's sequence and nothing else, and the
    state is returned as it was. *)
Lemma handle_event_runs_sequence
    (st : State) (a : App.t) (m : macro) (ev : Event) (game : string) :
  0 <= app_index st ->
  app_index st <> len (apps st) - 1 ->
  apps st !! Z.to_nat (app_index st) = Some a ->
  0 <= key_number ev ->
  App.macros a !! Z.to_nat (key_number ev) = Some m ->
  handle_event st ev game
    = (trace (if pressed ev then press_edge (sequence m)
              else release_edge (sequence m)), Ok st).
Proof.
  intros Hlo Hgame Ha Hk Hm. unfold handle_event.
  destruct (app_index st =? len (apps st) - 1) eqn:E;
    [apply Z.eqb_eq in E; contradiction|].
  destruct (subscript_ok (apps st) (app_index st)) as (a' & Ha' & ->).
  { split; [exact Hlo|]. apply lookup_lt_Some in Ha. unfold len. lia. }
  assert (a' = a) as -> by congruence.
  pose proof (lookup_lt_Some _ _ _ Hm) as Hlt.
  destruct (subscript_ok (App.macros a) (key_number ev)) as (m' & Hm' & Hsub).
  { unfold len. lia. }
  assert (m' = m) as -> by congruence.
  cbn [bind app].
  destruct (key_number ev >=? len (App.macros a)) eqn:Ek.
  { apply Z.geb_le in Ek. unfold len in Ek. lia. }
  rewrite Hsub. cbn [bind app].
  destruct (pressed ev).
  - rewrite press_edge_trace. simpl. now rewrite app_nil_r.
  - rewrite release_edge_trace. simpl. now rewrite app_nil_r.
Qed.

(** C5: while an application other than the last (the game entry) is
    active, an event for a key at or beyond the number of its macros emits
    nothing and leaves the state as it was. *)
Theorem key_beyond_macros_ignored
    (st : State) (a : App.t) (ev : Event) (game : string) :
  0 <= app_index st ->
  app_index st <> len (apps st) - 1 ->
  apps st !! Z.to_nat (app_index st) = Some a ->
  len (App.macros a) <= key_number ev ->
  handle_event st ev game = ([], Ok st).
Proof.
  intros Hlo Hgame Ha Hkey. unfold handle_event.
  destruct (app_index st =? len (apps st) - 1) eqn:E;
    [apply Z.eqb_eq in E; contradiction|].
  destruct (subscript_ok (apps st) (app_index st)) as (a' & Ha' & ->).
  { split; [exact Hlo|]. apply lookup_lt_Some in Ha. unfold len. lia. }
  assert (a' = a) as -> by congruence.
  simpl.
  now rewrite (proj2 (Z.geb_le (key_number ev) (len (App.macros a))) Hkey).
Qed.

Lemma key_beyond_macros_ignored_key_3 :
  handle_event (MkState two_apps 0 (Some 0)) (MkEvent 3 true) "game_ended"
    = ([], Ok (MkState two_apps 0 (Some 0))).
Proof.
  apply (key_beyond_macros_ignored (MkState two_apps 0 (Some 0))
           (App.Build "Firefox" [Macro 0x004000 "Back" [IInt 226; IInt 80]])).
  - simpl. lia.
  - simpl. discriminate.
  - reflexivity.
  - simpl. unfold len. simpl. lia.
Defined.

(** C8: with the game entry active, a press of the game key hands over
    to the game; when the game returns "game_ended" the handler resets
    the rotation, reinstalls the macro menu group and refreshes the
    display, each once and in that order, and returns to the main loop
    with the state, the application index included, as it was. *)
Theorem game_ended_restores_menu (st : State) (ev : Event) :
  app_index st = len (apps st) - 1 ->
  pressed ev = true ->
  key_number ev = GAME_KEY ->
  handle_event st ev "game_ended"
    = ([Print "Starting Dragon Drop game..."; RunGame;
        Print "Exiting Dragon Drop game..."] ++ restore_menu, Ok st).
Proof.
  intros Hidx Hp Hk. unfold handle_event.
  rewrite Hidx, Z.eqb_refl, Hp, Hk, Z.eqb_refl. reflexivity.
Qed.

Lemma game_ended_restores_menu_two_apps :
  handle_event (MkState two_apps 1 (Some 1)) (MkEvent 11 true) "game_ended"
    = ([Print "Starting Dragon Drop game..."; RunGame;
        Print "Exiting Dragon Drop game..."] ++ restore_menu,
       Ok (MkState two_apps 1 (Some 1))).
Proof.
  apply (game_ended_restores_menu (MkState two_apps 1 (Some 1))
           (MkEvent 11 true)); reflexivity.
Defined.

(** ** Loading the macro files *)

Section Loading.

Variable import : string -> result pymodule.

Lemma load_file_skipped (acc : list App.t) (filename : string) :
  candidate filename = false ->
  load_file import acc filename = ([], Ok acc).
Proof. unfold load_file, candidate. now intros ->. Qed.

Lemma load_file_loaded (acc : list App.t) (filename : string) (a : App.t) :
  candidate filename = true -> attempt import filename = Ok a ->
  load_file import acc filename = ([], Ok (acc ++ [a])).
Proof.
  unfold load_file, candidate, attempt, import_module. intros -> H.
  destruct (import _) as [[[[[n|] [m|]|]|]]|e]; simpl in *;
    try discriminate.
  now injection H as <-.
Qed.

Lemma load_file_failed (acc : list App.t) (filename : string) (err : exn) :
  candidate filename = true -> attempt import filename = Raise err ->
  load_file import acc filename
    = if load_errors (exn_cls err)
      then ([Print ("ERROR in " +:+ filename +:+ ": " +:+ exn_msg err)], Ok acc)
      else ([], Raise err).
Proof.
  unfold load_file, candidate, attempt, import_module. intros -> H.
  destruct (import _) as [[[[[n|] [m|]|]|]]|e]; simpl in *;
    try discriminate; injection H as <-; reflexivity.
Qed.

Lemma load_files_soft (files : list string) (acc : list App.t) :
  only_load_errors import files ->
  load_files import acc files
    = (flat_map (diagnostic_of import) files,
       Ok (acc ++ flat_map (loaded_from import) files)).
Proof.
  revert acc. induction files as [|f files IH]; intros acc Hok; simpl.
  - now rewrite app_nil_r.
  - assert (Hrest : only_load_errors import files).
    { intros g e Hg. apply Hok. now right. }
    unfold diagnostic_of at 1, loaded_from at 1.
    destruct (candidate f) eqn:Hc.
    + destruct (attempt import f) as [a|e] eqn:Ha.
      * rewrite (load_file_loaded acc f a Hc Ha). simpl.
        rewrite (IH _ Hrest). simpl. now rewrite <- app_assoc.
      * rewrite (load_file_failed acc f e Hc Ha).
        rewrite (Hok f e (or_introl eq_refl) Hc Ha). simpl.
        now rewrite (IH _ Hrest).
    + rewrite (load_file_skipped acc f Hc). simpl.
      now rewrite (IH _ Hrest).
Qed.


End Loading.



(** * Further properties of the firmware *)

(** ** Press and release walks of one sequence *)

Lemma press_list_no_keys (codes : list code) :
  pressed_keys (flat_map media_code_actions codes) = [] /\
  pressed_buttons (flat_map media_code_actions codes) = [].
Proof.
  induction codes as [|c codes [IHk IHb]]; [split; reflexivity|].
  simpl. unfold pressed_keys, pressed_buttons in *.
  rewrite !flat_map_app, IHk, IHb. destruct c; split; reflexivity.
Qed.

Lemma press_dict_trace (m : mouse_dict) :
  exists audio : list action,
    trace (press_dict m)
      = match buttons m with
        | Some b => if b >=? 0 then [MousePress b] else [MouseRelease (- b)]
        | None => []
        end ++ MouseMove (get (x m) 0) (get (y m) 0) (get (wheel m) 0) :: audio /\
    pressed_keys audio = [] /\ pressed_buttons audio = [].
Proof.
  destruct m as [b mx my mw f p]. unfold press_dict. simpl.
  destruct b as [b|]; [destruct (b >=? 0)|];
    (destruct f as [f|]; [destruct (f >? 0)|destruct p]);
    eexists; simpl; (split; [reflexivity | split; reflexivity]).
Qed.

Lemma item_keys_paired (it : item) :
  released_keys (trace (release_item it))
    = pressed_keys (trace (press_item it)).
Proof.
  destruct it as [c|d|s|codes|m|]; try reflexivity.
  - simpl. destruct (c >=? 0); reflexivity.
  - rewrite press_list_trace. now rewrite (proj1 (press_list_no_keys codes)).
  - change (press_item (IDict m)) with (press_dict m).
    destruct (press_dict_trace m) as (audio & -> & Hk & _).
    unfold pressed_keys in *. rewrite flat_map_app. simpl. rewrite Hk.
    simpl. destruct (buttons m) as [b|]; [destruct (b >=? 0)|]; reflexivity.
Qed.

Lemma item_buttons_paired (it : item) :
  released_buttons (trace (release_item it))
    = pressed_buttons (trace (press_item it)).
Proof.
  destruct it as [c|d|s|codes|m|]; try reflexivity.
  - simpl. destruct (c >=? 0); reflexivity.
  - rewrite press_list_trace. now rewrite (proj2 (press_list_no_keys codes)).
  - change (press_item (IDict m)) with (press_dict m).
    destruct (press_dict_trace m) as (audio & -> & _ & Hb).
    unfold pressed_buttons in *. rewrite flat_map_app. simpl. rewrite Hb.
    simpl. destruct (buttons m) as [b|]; [destruct (b >=? 0)|];
      simpl; now rewrite ?app_nil_r.
Qed.

(** X1: the key codes the release edge of a sequence releases are the
    key codes its press edge pressed, one release per press and in the
    order of the presses. *)
Theorem released_keys_are_pressed_keys (seq : list item) :
  released_keys (trace (release_edge seq))
    = pressed_keys (trace (press_edge seq)).
Proof.
  rewrite release_edge_trace, press_walk. simpl.
  unfold released_keys at 1. rewrite flat_map_app. simpl. rewrite app_nil_r.
  induction seq as [|it seq IH]; [reflexivity|].
  simpl. unfold pressed_keys at 1. rewrite !flat_map_app.
  fold (released_keys (trace (release_item it))).
  fold (pressed_keys (trace (press_item it))).
  rewrite item_keys_paired. f_equal. exact IH.
Qed.

(** X2: the mouse buttons the release edge of a sequence releases are
    the buttons its press edge pressed, one release per press and in the
    order of the presses. *)
Theorem released_buttons_are_pressed_buttons (seq : list item) :
  released_buttons (trace (release_edge seq))
    = pressed_buttons (trace (press_edge seq)).
Proof.
  rewrite release_edge_trace, press_walk. simpl.
  unfold released_buttons at 1. rewrite flat_map_app. simpl.
  rewrite app_nil_r.
  induction seq as [|it seq IH]; [reflexivity|].
  simpl. unfold pressed_buttons at 1. rewrite !flat_map_app.
  fold (released_buttons (trace (release_item it))).
  fold (pressed_buttons (trace (press_item it))).
  rewrite item_buttons_paired. f_equal. exact IH.
Qed.

(** X3: the walks follow the sequence piece by piece: the press edge of
    two sequences put end to end emits the trace of the first and then
    the trace of the second; the release edge does the same, except that
    the consumer-control release closing the first part is not emitted. *)
Theorem edges_of_appended_sequences (s1 s2 : list item) :
  press_edge (s1 ++ s2)
    = (trace (press_edge s1) ++ trace (press_edge s2), Ok tt) /\
  release_edge (s1 ++ s2)
    = (removelast (trace (release_edge s1)) ++ trace (release_edge s2), Ok tt).
Proof.
  split.
  - rewrite (press_edge_trace (s1 ++ s2)), !press_walk.
    now rewrite flat_map_app.
  - rewrite !release_edge_trace. simpl.
    rewrite removelast_last, flat_map_app. now rewrite app_assoc.
Qed.

(** ** Key events *)

(** The "Back" key of the first page, pressed. *)
Lemma handle_event_runs_sequence_back_key :
  handle_event (MkState two_apps 0 (Some 0)) (MkEvent 0 true) "game_ended"
    = ([KeyboardPress 226; KeyboardPress 80], Ok (MkState two_apps 0 (Some 0))).
Proof.
  apply (handle_event_runs_sequence (MkState two_apps 0 (Some 0))
           (App.Build "Firefox" [Macro 0x004000 "Back" [IInt 226; IInt 80]])
           (Macro 0x004000 "Back" [IInt 226; IInt 80])
           (MkEvent 0 true) "game_ended").
  - simpl. lia.
  - simpl. discriminate.
  - reflexivity.
  - simpl. lia.
  - reflexivity.
Defined.

(** X5: while the last application (the game entry) is selected, a key
    event never runs a macro: its trace holds no keyboard, consumer
    control, mouse, tone, audio or delay action, and the state is returned
    as it was.  The game is started exactly on a press of the game key,
    and the display is refreshed exactly when the game so started returns
    "game_ended"; in every other case the trace holds no action on the
    display or the pixels at all (no rotation, no root group, no label,
    no refresh). *)
Theorem game_page_runs_no_macro (st : State) (ev : Event) (game : string) :
  app_index st = len (apps st) - 1 ->
  exists t : list action,
    handle_event st ev game = (t, Ok st) /\
    existsb is_macro_output t = false /\
    (In RunGame t <-> pressed ev = true /\ key_number ev = GAME_KEY) /\
    (In DisplayRefresh t <->
       pressed ev = true /\ key_number ev = GAME_KEY /\ game = "game_ended") /\
    (existsb is_display_action t = true <->
       pressed ev = true /\ key_number ev = GAME_KEY /\ game = "game_ended").
Proof.
  intros Hidx. unfold handle_event. rewrite Hidx, Z.eqb_refl.
  destruct (pressed ev); simpl.
  - destruct (key_number ev =? GAME_KEY) eqn:Ek.
    + apply Z.eqb_eq in Ek.
      destruct (String.eqb game "game_ended") eqn:Eg; simpl.
      * apply String.eqb_eq in Eg. eexists. split; [reflexivity|].
        split; [reflexivity|]. simpl.
        split; [|split]; split; auto 10.
      * apply String.eqb_neq in Eg. eexists. split; [reflexivity|].
        split; [reflexivity|]. simpl. split; [|split]; split; auto.
        -- intros [H|[H|[]]]; discriminate.
        -- intros (_ & _ & H). contradiction.
        -- discriminate.
        -- intros (_ & _ & H). contradiction.
    + apply Z.eqb_neq in Ek. eexists. split; [reflexivity|].
      split; [reflexivity|]. simpl. split; [|split]; split.
      * intros [H|[]]; discriminate.
      * intros [_ H]; contradiction.
      * intros [H|[]]; discriminate.
      * intros (_ & H & _); contradiction.
      * discriminate.
      * intros (_ & H & _); contradiction.
  - eexists. split; [reflexivity|]. split; [reflexivity|]. simpl.
    split; [|split]; split; try contradiction; try discriminate.
    + intros [H _]; discriminate.
    + intros (H & _); discriminate.
    + intros (H & _); discriminate.
Qed.

Lemma game_page_runs_no_macro_other_key :
  exists t : list action,
    handle_event (MkState two_apps 1 (Some 1)) (MkEvent 0 true) "game_ended"
      = (t, Ok (MkState two_apps 1 (Some 1))) /\
    existsb is_macro_output t = false /\
    (In RunGame t <-> true = true /\ 0 = GAME_KEY) /\
    (In DisplayRefresh t <->
       true = true /\ 0 = GAME_KEY /\ "game_ended" = "game_ended") /\
    (existsb is_display_action t = true <->
       true = true /\ 0 = GAME_KEY /\ "game_ended" = "game_ended").
Proof.
  apply (game_page_runs_no_macro (MkState two_apps 1 (Some 1))
           (MkEvent 0 true) "game_ended").
  reflexivity.
Defined.

(** ** The main loop as a whole *)

Lemma handle_event_frame (st : State) (ev : Event) (game : string) :
  index_in_range st -> 0 <= key_number ev ->
  exists t, handle_event st ev game = (t, Ok st).
Proof.
  intros Hidx Hk. unfold handle_event.
  destruct (app_index st =? len (apps st) - 1).
  - destruct (pressed ev && (key_number ev =? GAME_KEY)).
    + simpl. destruct (String.eqb game "game_ended"); eexists; reflexivity.
    + destruct (pressed ev); eexists; reflexivity.
  - destruct (subscript_ok (apps st) (app_index st) Hidx) as (a & _ & ->).
    cbn [bind app].
    destruct (key_number ev >=? len (App.macros a)) eqn:Ek;
      [eexists; reflexivity|].
    destruct (subscript_ok (App.macros a) (key_number ev)) as (m & _ & ->).
    { split; [exact Hk|]. destruct (Z.geb_spec (key_number ev)
        (len (App.macros a))); [discriminate | lia]. }
    cbn [bind app].
    destruct (pressed ev).
    + rewrite press_edge_trace. eexists. reflexivity.
    + rewrite release_edge_trace. eexists. reflexivity.
Qed.

Lemma poll_encoder_step (st : State) (p : Z) :
  index_in_range st -> tracks_encoder st ->
  exists t st',
    poll_encoder st p = (t, Ok st') /\
    apps st' = apps st /\ index_in_range st' /\ tracks_encoder st' /\
    last_position st' = Some p.
Proof.
  intros Hidx Htr. unfold poll_encoder.
  destruct (decide (Some p <> last_position st)) as [Hne|He].
  - assert (HN : 0 < len (apps st)) by (unfold index_in_range in Hidx; lia).
    pose proof (Z.mod_pos_bound p (len (apps st)) HN) as Hb.
    unfold py_mod.
    destruct (len (apps st) =? 0) eqn:E; [apply Z.eqb_eq in E; lia|].
    cbn [bind app ret].
    destruct (subscript_ok (apps st) _ Hb) as (a & _ & ->).
    cbn [bind app].
    rewrite (io_eta (App.switch a)), switch_ok. simpl.
    eexists. eexists. split; [reflexivity|].
    repeat split; simpl; try reflexivity; apply Hb.
  - exists [], st. split; [reflexivity|].
    repeat split; try assumption; try apply Hidx.
    destruct (last_position st) as [q|] eqn:Eq.
    + destruct (decide (p = q)) as [->|Hpq]; [reflexivity|].
      exfalso. apply He. congruence.
    + exfalso. apply He. discriminate.
Qed.

Lemma loop_iteration_step (st : State) (inp : Input) :
  index_in_range st -> tracks_encoder st -> key_from_keypad inp ->
  exists t st',
    loop_iteration st inp = (t, Ok st') /\
    apps st' = apps st /\ index_in_range st' /\ tracks_encoder st' /\
    last_position st' = Some (encoder inp).
Proof.
  intros Hidx Htr Hkey. unfold loop_iteration.
  destruct (poll_encoder_step st (encoder inp) Hidx Htr)
    as (t & st' & -> & Ha & Hi & Ht & Hl).
  cbn [bind]. unfold key_from_keypad in Hkey.
  destruct (event inp) as [ev|].
  - destruct (handle_event_frame st' ev (game_result inp) Hi Hkey)
      as (t' & ->).
    exists (t ++ t'), st'. auto.
  - exists (t ++ []), st'. auto.
Qed.

Lemma last_cons_default {A} (l : list A) (v d : A) :
  List.last (v :: l) d = List.last l v.
Proof.
  revert v d. induction l as [|w l IH]; intros v d; [reflexivity|].
  change (List.last (v :: w :: l) d) with (List.last (w :: l) d).
  rewrite IH. symmetry. apply IH.
Qed.

(** X6: started in a state whose index points into the list of
    applications and is the one the last encoder position selects, and
    fed key numbers that are not negative, the main loop never raises,
    whatever the encoder positions, the key events and the results of the
    game are; it leaves the list of applications as it is, and after each
    iteration the index is the encoder position just read, modulo the
    number of applications. *)
Theorem main_loop_tracks_encoder (st : State) (inputs : list Input) :
  index_in_range st -> tracks_encoder st ->
  Forall key_from_keypad inputs ->
  exists t st',
    main_loop st inputs = (t, Ok st') /\
    apps st' = apps st /\
    index_in_range st' /\ tracks_encoder st' /\
    last_position st'
      = List.last (map (fun inp => Some (encoder inp)) inputs)
          (last_position st).
Proof.
  intros Hidx Htr Hkeys. revert st Hidx Htr.
  induction Hkeys as [|inp inputs Hkey _ IH]; intros st Hidx Htr.
  - exists [], st. repeat split; try assumption; apply Hidx.
  - destruct (loop_iteration_step st inp Hidx Htr Hkey)
      as (t & st1 & Hstep & Ha & Hi & Ht & Hl).
    destruct (IH st1 Hi Ht) as (t' & st' & Hrun & Ha' & Hi' & Ht' & Hl').
    exists (t ++ t'), st'. simpl main_loop. rewrite Hstep. cbn [bind].
    rewrite Hrun. split; [reflexivity|].
    split; [congruence|]. split; [exact Hi'|]. split; [exact Ht'|].
    rewrite Hl', Hl. simpl map. now rewrite last_cons_default.
Qed.

Lemma main_loop_tracks_encoder_two_turns :
  exists t st',
    main_loop fresh_state
      [MkInput (-1) None ""; MkInput 3 (Some (MkEvent 0 true)) ""]
      = (t, Ok st') /\
    apps st' = two_apps /\
    index_in_range st' /\ tracks_encoder st' /\
    last_position st' = Some 3.
Proof.
  apply (main_loop_tracks_encoder fresh_state
           [MkInput (-1) None ""; MkInput 3 (Some (MkEvent 0 true)) ""]).
  - unfold index_in_range, len. simpl. lia.
  - exact I.
  - repeat constructor. unfold key_from_keypad. simpl. lia.
Defined.

(** ** Start-up *)

(** X7: when start-up reaches the main loop, the applications are the
    loaded ones, in the order of the listing, with the game entry
    appended as the last; the index is 0 and no encoder position has been
    seen; the first loaded application is the one switched to, so the
    firmware never starts on the game entry; and the state is one the
    main loop can run from. *)
Theorem startup_shows_first_loaded
    (import : string -> result pymodule) (files : list string)
    (t : list action) (st : State) :
  startup import files = (t, Ok (Running st)) ->
  exists diag first rest,
    load_files import [] files = (diag, Ok (first :: rest)) /\
    st = MkState (first :: rest ++ [game_entry]) 0 None /\
    t = diag ++ trace (App.switch first) /\
    index_in_range st /\ tracks_encoder st /\
    app_index st <> len (apps st) - 1.
Proof.
  unfold startup. intros H.
  destruct (load_files import [] files) as [diag [[|first rest]|e]];
    simpl in H; try discriminate.
  rewrite (io_eta (App.switch first)), switch_ok in H. simpl in H.
  injection H as <- <-.
  exists diag, first, rest. split; [reflexivity|]. split; [reflexivity|].
  split; [now rewrite app_nil_r|].
  unfold index_in_range, tracks_encoder, len. simpl.
  rewrite length_app. simpl. repeat split; lia.
Qed.

Lemma startup_shows_first_loaded_firefox :
  exists diag first rest,
    load_files import_missing_name [] listing_missing_name
      = (diag, Ok (first :: rest)) /\
    MkState [App.Build "Firefox" []; game_entry] 0 None
      = MkState (first :: rest ++ [game_entry]) 0 None /\
    trace (startup import_missing_name listing_missing_name)
      = diag ++ trace (App.switch first) /\
    index_in_range (MkState [App.Build "Firefox" []; game_entry] 0 None) /\
    tracks_encoder (MkState [App.Build "Firefox" []; game_entry] 0 None) /\
    0 <> 2 - 1.
Proof.
  apply (startup_shows_first_loaded import_missing_name listing_missing_name
           (trace (startup import_missing_name listing_missing_name))
           (MkState [App.Build "Firefox" []; game_entry] 0 None)).
  vm_compute. reflexivity.
Defined.

(** ** Errors while loading *)

(** X8: the only way one file can end the loading is an exception raised
    by the import itself, of a class outside the [except] clause, for a
    file that passes the name test; nothing has been printed for it.  A
    module without [app], or an [app] that is no dict or lacks ['name']
    or ['macros'], never ends the loading. *)
Theorem load_file_raises_only_import_errors
    (import : string -> result pymodule) (acc : list App.t)
    (filename : string) (t : list action) (e : exn) :
  load_file import acc filename = (t, Raise e) ->
  t = [] /\
  candidate filename = true /\
  import (MACRO_FOLDER +:+ "/" +:+ drop_last 3 filename) = Raise e /\
  load_errors (exn_cls e) = false.
Proof.
  unfold load_file, candidate, import_module.
  destruct (endswith filename ".py" && negb (startswith filename "._"));
    [|discriminate].
  destruct (import _) as [[[[[n|] [m|]|]|]]|e']; simpl;
    try discriminate.
  destruct (load_errors (exn_cls e')) eqn:E; simpl; [discriminate|].
  intros [= <- <-]. auto.
Qed.

Lemma load_file_raises_only_import_errors_bad_number :
  ([] : list action) = [] /\
  candidate "a-numbers.py" = true /\
  import_bad_number (MACRO_FOLDER +:+ "/" +:+ drop_last 3 "a-numbers.py")
    = Raise (Exn ValueError "invalid syntax for integer") /\
  load_errors ValueError = false.
Proof.
  apply (load_file_raises_only_import_errors import_bad_number []
           "a-numbers.py" [] (Exn ValueError "invalid syntax for integer")).
  reflexivity.
Defined.

Lemma load_files_app (import : string -> result pymodule)
    (l1 l2 : list string) (acc : list App.t) :
  load_files import acc (l1 ++ l2)
    = bind (load_files import acc l1) (fun a => load_files import a l2).
Proof.
  revert acc. induction l1 as [|f l1 IH]; intros acc; simpl.
  - destruct (load_files import acc l2); reflexivity.
  - destruct (load_file import acc f) as [t [a|e]]; simpl; [|reflexivity].
    rewrite IH. destruct (load_files import a l1) as [t1 [a1|e1]]; simpl.
    + destruct (load_files import a1 l2). now rewrite app_assoc.
    + reflexivity.
Qed.

(** X9: the loading ends at the first file whose exception is of a class
    the [except] clause does not name: the diagnostics of the files
    before it have been printed, no file after it is imported, and
    start-up ends with that exception, before anything is put on the
    display. *)
Theorem loading_stops_at_first_uncaught
    (import : string -> result pymodule)
    (before after : list string) (filename : string) (e : exn) :
  only_load_errors import before ->
  candidate filename = true ->
  attempt import filename = Raise e ->
  load_errors (exn_cls e) = false ->
  load_files import [] (before ++ filename :: after)
    = (flat_map (diagnostic_of import) before, Raise e) /\
  startup import (before ++ filename :: after)
    = (flat_map (diagnostic_of import) before, Raise e).
Proof.
  intros Hok Hc Ha He.
  assert (Hload : load_files import [] (before ++ filename :: after)
            = (flat_map (diagnostic_of import) before, Raise e)).
  { rewrite load_files_app, (load_files_soft import before [] Hok).
    cbn [bind load_files].
    rewrite (load_file_failed import _ filename e Hc Ha), He.
    cbn [bind]. now rewrite app_nil_r. }
  split; [exact Hload|].
  unfold startup. now rewrite Hload.
Qed.

Lemma loading_stops_at_first_uncaught_bad_number :
  load_files import_bad_number [] ["firefox.py"; "a-numbers.py"; "z.py"]
    = ([], Raise (Exn ValueError "invalid syntax for integer")) /\
  startup import_bad_number ["firefox.py"; "a-numbers.py"; "z.py"]
    = ([], Raise (Exn ValueError "invalid syntax for integer")).
Proof.
  apply (loading_stops_at_first_uncaught import_bad_number
           ["firefox.py"] ["z.py"] "a-numbers.py"
           (Exn ValueError "invalid syntax for integer")).
  - intros f err [<-|[]] _ H. vm_compute in H. discriminate.
  - reflexivity.
  - reflexivity.
  - reflexivity.
Defined.

(** ** File names *)

Lemma string_length_app (s t : string) :
  String.length (s +:+ t) = (String.length s + String.length t)%nat.
Proof. induction s as [|c s IH]; simpl; [reflexivity | now rewrite IH]. Qed.

Lemma substring_whole (t : string) :
  String.substring 0 (String.length t) t = t.
Proof. induction t as [|c t IH]; simpl; [reflexivity | now rewrite IH]. Qed.

Lemma substring_front (s t : string) :
  String.substring 0 (String.length s) (s +:+ t) = s.
Proof.
  induction s as [|c s IH]; simpl.
  - destruct t; reflexivity.
  - now rewrite IH.
Qed.

Lemma substring_back (s t : string) :
  String.substring (String.length s) (String.length t) (s +:+ t) = t.
Proof.
  induction s as [|c s IH]; simpl; [apply substring_whole | exact IH].
Qed.

Lemma endswith_app (s suffix : string) : endswith (s +:+ suffix) suffix = true.
Proof.
  unfold endswith. rewrite string_length_app.
  replace (String.length s + String.length suffix - String.length suffix)%nat
    with (String.length s) by lia.
  rewrite substring_back, String.eqb_refl.
  rewrite (proj2 (Nat.leb_le _ _)) by lia. reflexivity.
Qed.

Lemma drop_last_app (s suffix : string) :
  drop_last (String.length suffix) (s +:+ suffix) = s.
Proof.
  unfold drop_last. rewrite string_length_app.
  replace (String.length s + String.length suffix - String.length suffix)%nat
    with (String.length s) by lia.
  apply substring_front.
Qed.

(** X10: how the loader reads a file name.  A file [stem.py] whose name
    does not start with "._" is imported as the module [/macros/stem],
    and when that module binds [app] to a dict with a name and macros,
    the application is appended to those loaded so far, with nothing
    printed.  A name that starts with "._", or does not end in ".py", is
    passed over without being imported, whatever importing it would do. *)
Theorem load_file_by_name
    (import : string -> result pymodule) (acc : list App.t) :
  (forall stem n m,
     startswith (stem +:+ ".py") "._" = false ->
     import ("/macros/" +:+ stem) = Ok (PyModule (Some (AppDict (Some n) (Some m)))) ->
     load_file import acc (stem +:+ ".py") = ([], Ok (acc ++ [App.Build n m]))) /\
  (forall rest, load_file import acc ("._" +:+ rest) = ([], Ok acc)) /\
  (forall filename,
     endswith filename ".py" = false ->
     load_file import acc filename = ([], Ok acc)).
Proof.
  split; [|split].
  - intros stem n m Hvisible Himport. unfold load_file, import_module.
    rewrite (endswith_app stem ".py"), Hvisible.
    change 3%nat with (String.length ".py").
    rewrite drop_last_app.
    change (MACRO_FOLDER +:+ "/" +:+ stem) with ("/macros/" +:+ stem).
    rewrite Himport. reflexivity.
  - intros rest. unfold load_file.
    assert (Hhidden : startswith ("._" +:+ rest) "._" = true).
    { unfold startswith. simpl.
      repeat (destruct (Ascii.ascii_dec _ _); [|congruence]).
      simpl. destruct rest; reflexivity. }
    rewrite Hhidden. now rewrite andb_false_r.
  - intros filename Hend. unfold load_file. now rewrite Hend.
Qed.

Lemma load_file_by_name_firefox :
  load_file import_missing_name [] ("firefox" +:+ ".py")
    = ([], Ok ([] ++ [App.Build "Firefox" []])).
Proof.
  apply (proj1 (load_file_by_name import_missing_name [])
           "firefox" "Firefox" []); reflexivity.
Defined.

(** ** What a switch puts on the keys *)

Lemma show_key_trace (self : App.t) (i : Z) :
  0 <= i ->
  trace (App.show_key self i)
    = [SetPixel i (match App.macros self !! Z.to_nat i with
                   | Some m => color m
                   | None => 0
                   end);
       SetText i (match App.macros self !! Z.to_nat i with
                  | Some m => label m
                  | None => ""
                  end)].
Proof.
  intros Hi. unfold App.show_key.
  destruct (i <? len (App.macros self)) eqn:E.
  - apply Z.ltb_lt in E.
    destruct (subscript_ok (App.macros self) i) as (m & -> & ->); [lia|].
    reflexivity.
  - apply Z.ltb_ge in E. unfold len in E.
    rewrite (lookup_ge_None_2 (App.macros self) (Z.to_nat i)) by lia.
    reflexivity.
Qed.

Lemma show_keys_writes (self : App.t) (l : list Z) :
  (forall i, In i l -> 0 <= i) ->
  pixel_writes (flat_map (fun i => trace (App.show_key self i)) l)
    = map (fun i => (i, match App.macros self !! Z.to_nat i with
                        | Some m => color m
                        | None => 0
                        end)) l /\
  text_writes (flat_map (fun i => trace (App.show_key self i)) l)
    = map (fun i => (i, match App.macros self !! Z.to_nat i with
                        | Some m => label m
                        | None => ""
                        end)) l.
Proof.
  induction l as [|i l IH]; intros Hl; [split; reflexivity|].
  destruct IH as [IHp IHt]; [intros j Hj; apply Hl; now right|].
  simpl flat_map. rewrite show_key_trace by (apply Hl; now left).
  unfold pixel_writes, text_writes in *. simpl.
  rewrite IHp, IHt. split; reflexivity.
Qed.

(** X11: a switch assigns each of the twelve keys once, in order: key
    [i] gets the colour and the label of macro [i] when the application
    has one, and is turned off with an empty label when it has not; the
    title label gets the name.  Macros from the thirteenth on are never
    shown. *)
Theorem switch_assigns_twelve_keys (self : App.t) :
  pixel_writes (trace (App.switch self))
    = map (fun i => (i, match App.macros self !! Z.to_nat i with
                        | Some m => color m
                        | None => 0
                        end)) (range 12) /\
  text_writes (trace (App.switch self))
    = (13, App.name self)
      :: map (fun i => (i, match App.macros self !! Z.to_nat i with
                           | Some m => label m
                           | None => ""
                           end)) (range 12).
Proof.
  destruct (show_keys_writes self (range 12) (range_nonneg 12)) as [Hp Ht].
  unfold App.switch. rewrite show_keys_run.
  set (keys := flat_map (fun i => trace (App.show_key self i)) (range 12)) in *.
  unfold pixel_writes, text_writes in *.
  destruct (negb (String.eqb (App.name self) "")); simpl;
    rewrite !flat_map_app, Hp, Ht; simpl; rewrite ?app_nil_r;
    split; reflexivity.
Qed.

(** ** The display group *)

(** X12: the display group holds fourteen elements.  For each key
    [0 <= key_index < 12], [group[key_index]] is the label of that key,
    drawn in column [x] and row [y] of a grid of three columns and four
    rows with [key_index = 3 * y + x]; a row lies twelve pixels above
    the next one, the last on the bottom line of the display.
    [group[12]] is the bar of the title and [group[13]] the label of the
    title, the one [App.switch] writes the name to. *)
Theorem group_is_a_three_by_four_grid (width height : Z) :
  (forall key_index, 0 <= key_index < 12 ->
     exists x y,
       subscript (group width height) key_index
         = ([], Ok (Label "" 0xFFFFFF
                      (((width - 1) * x) # 2) (height - 1 - (3 - y) * 12)
                      (x # 2) 1)) /\
       0 <= x < 3 /\ 0 <= y < 4 /\ key_index = 3 * y + x) /\
  subscript (group width height) 12 = ([], Ok (rect width)) /\
  subscript (group width height) 13 = ([], Ok (title_label width)) /\
  len (group width height) = 14.
Proof.
  split; [|repeat split].
  intros key_index Hk.
  exists (key_index `mod` 3), (key_index / 3).
  assert (Hcases : key_index = 0 \/ key_index = 1 \/ key_index = 2 \/
                   key_index = 3 \/ key_index = 4 \/ key_index = 5 \/
                   key_index = 6 \/ key_index = 7 \/ key_index = 8 \/
                   key_index = 9 \/ key_index = 10 \/ key_index = 11) by lia.
  repeat (destruct Hcases as [->|Hcases]); try subst key_index;
    (split; [reflexivity | split; [|split]; [| |reflexivity];
       split; discriminate || reflexivity]).
Qed.

Lemma group_is_a_three_by_four_grid_key_7 :
  exists x y,
    subscript (group 128 64) 7
      = ([], Ok (Label "" 0xFFFFFF
                   (((128 - 1) * x) # 2) (64 - 1 - (3 - y) * 12)
                   (x # 2) 1)) /\
    0 <= x < 3 /\ 0 <= y < 4 /\ 7 = 3 * y + x.
Proof.
  apply (proj1 (group_is_a_three_by_four_grid 128 64) 7). lia.
Defined.

(** ** Mouse moves *)

Lemma item_mouse_moves (it : item) :
  mouse_moves (trace (press_item it)) = move_of it.
Proof.
  destruct it as [c|d|s|codes|m|]; try reflexivity.
  - simpl. destruct (c >=? 0); reflexivity.
  - rewrite press_list_trace. simpl.
    induction codes as [|c codes IH]; [reflexivity|].
    simpl. unfold mouse_moves in *. rewrite flat_map_app, IH.
    destruct c; reflexivity.
  - destruct m as [b mx my mw f p]. simpl. unfold press_dict. simpl.
    destruct b as [b|]; [destruct (b >=? 0)|];
      (destruct f as [f|]; [destruct (f >? 0)|destruct p]); reflexivity.
Qed.

(** X13: the press edge moves the mouse once for every dict item of the
    sequence, in order, by the ['x'], ['y'] and ['wheel'] of the item with
    0 for a key that is absent: a dict that holds only a tone or a button
    still sends a move of (0, 0, 0).  No other item moves the mouse, and
    the release edge never does. *)
Theorem one_mouse_move_per_dict (seq : list item) :
  mouse_moves (trace (press_edge seq)) = flat_map move_of seq /\
  mouse_moves (trace (release_edge seq)) = [].
Proof.
  split.
  - rewrite press_walk.
    induction seq as [|it seq IH]; [reflexivity|].
    simpl. unfold mouse_moves in *. rewrite flat_map_app, IH.
    fold (mouse_moves (trace (press_item it))).
    now rewrite item_mouse_moves.
  - rewrite release_edge_trace. simpl.
    pose proof (release_walk_hid seq) as Hw.
    unfold mouse_moves. rewrite flat_map_app. simpl. rewrite app_nil_r.
    induction Hw as [|a l Ha _ IH]; [reflexivity|].
    simpl. rewrite IH. destruct a; simpl in Ha; try contradiction;
      reflexivity.
Qed.
